(** * AiDUC API: the content-adaptation handlers of [src/main.py]

    A shallow embedding of the four rule-based request handlers
    ([neotutor_ask], [flexa_convert], [eyeread_scan], [pathly_plan]) together
    with the Python string operations they are written in, followed by the
    properties of the handlers.

    Python [str] values are sequences of Unicode code points, and several of
    the operations used by the handlers ([strip], [q[:80]], [lower], [upper])
    are defined on code points, not on bytes.  A string is therefore a list
    of code points here.  The white-space class used by [str.strip] is small
    and written out in full; the case-mapping tables of the runtime are far
    too large for that and are taken as variables of a section. *)

From Stdlib Require Import String Ascii.
From Stdlib Require Import List NArith ZArith Bool Lia.
Import ListNotations.

Local Open Scope N_scope.

(** ** Python strings *)

Definition cp := N.
Definition str := list cp.

(** A string literal of the source; all literals the handlers use are ASCII. *)
Definition lit (s : string) : str := map N_of_ascii (list_ascii_of_string s).

(** [Py_UNICODE_ISSPACE]: the characters removed by [str.strip()]. *)
Definition isspace (c : cp) : bool :=
  ((0x09 <=? c) && (c <=? 0x0D)) || ((0x1C <=? c) && (c <=? 0x20))
  || (c =? 0x85) || (c =? 0xA0) || (c =? 0x1680)
  || ((0x2000 <=? c) && (c <=? 0x200A))
  || (c =? 0x2028) || (c =? 0x2029) || (c =? 0x202F) || (c =? 0x205F)
  || (c =? 0x3000).

Fixpoint dropwhile {A} (p : A -> bool) (l : list A) : list A :=
  match l with
  | [] => []
  | x :: r => if p x then dropwhile p r else l
  end.

(** [s.lstrip()], [s.rstrip()] and [s.strip()]. *)
Definition lstrip (s : str) : str := dropwhile isspace s.

Fixpoint rstrip (s : str) : str :=
  match s with
  | [] => []
  | c :: r =>
      match rstrip r with
      | [] => if isspace c then [] else [c]
      | r' => c :: r'
      end
  end.

Definition strip (s : str) : str := rstrip (lstrip s).

(** [s.replace(old, new)] for one-character [old] and [new]. *)
Definition replace (old new : cp) (s : str) : str :=
  map (fun c => if c =? old then new else c) s.

(** [s.split(sep)] for a one-character [sep]: never empty, keeps empty
    fragments. *)
Fixpoint split (sep : cp) (s : str) : list str :=
  match s with
  | [] => [[]]
  | c :: r =>
      if c =? sep then [] :: split sep r
      else match split sep r with
           | [] => [[c]]
           | f :: fs => (c :: f) :: fs
           end
  end.

(** [sep.join(l)]. *)
Fixpoint join (sep : str) (l : list str) : str :=
  match l with
  | [] => []
  | [x] => x
  | x :: r => x ++ sep ++ join sep r
  end.

Definition str_eqb (a b : str) : bool :=
  if list_eq_dec N.eq_dec a b then true else false.

Fixpoint startswith (s p : str) {struct p} : bool :=
  match p, s with
  | [], _ => true
  | _ :: _, [] => false
  | a :: p', b :: s' => (a =? b) && startswith s' p'
  end.

(** [k in s] on strings: [k] occurs as a contiguous run of [s]. *)
Fixpoint contains (k s : str) : bool :=
  startswith s k ||
  match s with
  | [] => false
  | _ :: r => contains k r
  end.

(** [s.endswith(p)]. *)
Definition endswith (s p : str) : bool :=
  (length p <=? length s)%nat && str_eqb (skipn (length s - length p) s) p.

(** Truthiness of a string: [if s] holds for the non-empty ones. *)
Definition truthy (s : str) : bool :=
  match s with [] => false | _ => true end.

(** A one-character literal. *)
Definition chr (a : ascii) : cp := N_of_ascii a.
Arguments chr a%_char.

Definition LF : cp := 0x0A.
Definition TAB : cp := 0x09.

(** ** The case tables on the ASCII range

    The tables of the Unicode database cut down to the code points below
    128 (every other code point is left alone).  They serve to run the
    handlers on concrete ASCII inputs. *)

Definition ascii_lower (c : cp) : cp :=
  if (0x41 <=? c) && (c <=? 0x5A) then c + 32 else c.

Definition ascii_upper (c : cp) : cp :=
  if (0x61 <=? c) && (c <=? 0x7A) then c - 32 else c.

Definition ascii_ToLowerFull (c : cp) : list cp := [ascii_lower c].
Definition ascii_ToUpperFull (c : cp) : list cp := [ascii_upper c].

Definition ascii_IsCased (c : cp) : bool :=
  ((0x41 <=? c) && (c <=? 0x5A)) || ((0x61 <=? c) && (c <=? 0x7A)).

Definition ascii_IsCaseIgnorable (c : cp) : bool :=
  (c =? 0x27) || (c =? 0x2E) || (c =? 0x3A) || (c =? 0x5E) || (c =? 0x60).

(** ** Request and response models *)

Module AskRequest.
Record t := mk { question : str; level : option str }.
(** The field constraint [min_length=3]. *)
Definition valid (r : t) : bool := (3 <=? length (question r))%nat.
End AskRequest.

Module AskResponse.
Record t := mk { answer : str; steps : list str; tips : list str }.
End AskResponse.

Module FlexaRequest.
Record t := mk { text : str }.
Definition valid (r : t) : bool := (1 <=? length (text r))%nat.
End FlexaRequest.

Module FlexaResponse.
Record t := mk { audio_url : option str; large_text : str;
                 summary : str; sign_gloss : list str }.
End FlexaResponse.

Module EyeReadRequest.
Record t := mk { text : str }.
Definition valid (r : t) : bool := (1 <=? length (text r))%nat.
End EyeReadRequest.

Module EyeReadResponse.
Record t := mk { text : str; summary : str; audio_url : option str }.
End EyeReadResponse.

Module PathlyRequest.
Record t := mk { topic : str; proficiency : Z }.
(** The field constraints [min_length=2], [ge=1], [le=5]. *)
Definition valid (r : t) : bool :=
  (2 <=? length (topic r))%nat
  && (1 <=? proficiency r)%Z && (proficiency r <=? 5)%Z.
End PathlyRequest.

Module PathItem.
Record t := mk { title : str; objective : str; activity : str }.
End PathItem.

Module PathlyResponse.
Record t := mk { level : str; plan : list PathItem.t; recommended : list str }.
End PathlyResponse.

(** ** EchoForum

    [list_forum_posts(limit)] reads the posts through [get_documents] of the
    database module, which is not among the sources.  What the handler itself
    computes is the limit it asks for, [min(max(limit, 1), 100)]. *)

Definition forum_query_limit (limit : Z) : Z := Z.min (Z.max limit 1) 100.

(** ** The fixed texts of NeoTutor *)

Definition tutor_tips : list str :=
  [ lit "Baca soal perlahan dan tandai kata kunci.";
    lit "Ubah pertanyaan menjadi kalimat pernyataan untuk membantu memahami.";
    lit "Coba jelaskan kembali dengan bahasamu sendiri." ].

Definition keywords : list str :=
  [ lit "rumus"; lit "formula"; lit "luas"; lit "keliling" ].

Definition computational_steps : list str :=
  [ lit "Identifikasi besaran yang diketahui";
    lit "Tulis rumus yang sesuai";
    lit "Substitusi nilai, hitung tahap demi tahap";
    lit "Tulis jawaban dengan satuan yang benar" ].
Definition computational_answer : str :=
  lit "Untuk soal berhitung, gunakan rumus yang tepat lalu hitung tahap demi tahap.".

Definition interrogative_steps : list str :=
  [ lit "Pahami pertanyaan"; lit "Cari konsep utama";
    lit "Berikan contoh sederhana"; lit "Simpulkan" ].
Definition interrogative_answer : str :=
  lit "Berikut penjelasan singkat dengan bahasa sederhana sesuai pertanyaanmu.".

Definition default_steps : list str :=
  [ lit "Pecah persoalan"; lit "Cari definisi";
    lit "Hubungkan dengan contoh"; lit "Simpulkan" ].
Definition default_answer : str :=
  lit "Ini adalah jawaban ringkas yang mudah diikuti.".

(** ** The components as the specification names them

    Sections 4.1 and 4.2 of the specification describe a segmenter and a
    summarizer.  The source has no such functions: each handler carries its
    own copy of the code.  These two definitions follow the words of the
    specification and are compared with the handlers below. *)

Definition segment (text : str) : list str :=
  filter truthy
    (map strip (split (chr ".") (replace (chr "?") (chr ".")
                                   (replace (chr "!") (chr ".") text)))).

Definition summarize (text : str) : str :=
  let sentences := segment text in
  let joined := join (lit ". ") (firstn 2 sentences) in
  if (2 <? length sentences)%nat then joined ++ lit "..." else joined.

Section Handlers.

(** ** Case mapping ([str.lower], [str.upper])

    [_PyUnicode_ToLowerFull], [_PyUnicode_ToUpperFull], [_PyUnicode_IsCased]
    and [_PyUnicode_IsCaseIgnorable] are lookups in the Unicode database of
    the interpreter. *)
Variables ToLowerFull ToUpperFull : cp -> list cp.
Variables IsCased IsCaseIgnorable : cp -> bool.

(** [handle_capital_sigma]: a capital sigma is lowered to the final form
    when a cased letter precedes it and none follows, case-ignorable
    characters being skipped on both sides.  [before] lists the characters
    to the left, nearest first. *)
Definition final_sigma (before after : str) : bool :=
  match dropwhile IsCaseIgnorable before with
  | [] => false
  | c :: _ =>
      IsCased c &&
      match dropwhile IsCaseIgnorable after with
      | [] => true
      | d :: _ => negb (IsCased d)
      end
  end.

Definition lower_ucs4 (before : str) (c : cp) (after : str) : list cp :=
  if c =? 0x3A3 then [if final_sigma before after then 0x3C2 else 0x3C3]
  else ToLowerFull c.

Fixpoint do_lower (before s : str) : str :=
  match s with
  | [] => []
  | c :: r => lower_ucs4 before c r ++ do_lower (c :: before) r
  end.

Definition lower (s : str) : str := do_lower [] s.

Definition upper (s : str) : str := flat_map ToUpperFull s.

(** ** NeoTutor *)

Definition neotutor_ask (payload : AskRequest.t) : AskResponse.t :=
  let q := strip (AskRequest.question payload) in
  let tips := tutor_tips in
  let '(steps, answer) :=
    if existsb (fun k => contains k (lower q)) keywords then
      (computational_steps, computational_answer)
    else if endswith q (lit "?") then
      (interrogative_steps, interrogative_answer)
    else
      (default_steps, default_answer) in
  let topic := firstn 80 q in
  let answer := lit "Menjawab: '" ++ topic ++ lit "'. " ++ answer in
  AskResponse.mk answer steps tips.

(** ** Flexa (format converter) *)

Definition flexa_convert (payload : FlexaRequest.t) : FlexaResponse.t :=
  let text := strip (FlexaRequest.text payload) in
  let large_text := text in
  let sentences :=
    map strip
      (filter (fun s => truthy (strip s))
         (split (chr ".") (replace (chr "?") (chr ".")
                             (replace (chr "!") (chr ".") text)))) in
  let summary := join (lit ". ") (firstn 2 sentences) in
  let summary :=
    if (2 <? length sentences)%nat then summary ++ lit "..." else summary in
  let words := filter truthy (split (chr " ") (replace LF (chr " ") text)) in
  let gloss := map upper (firstn 8 words) in
  FlexaResponse.mk None large_text summary gloss.

(** ** EyeRead (text-first MVP) *)

Definition eyeread_scan (payload : EyeReadRequest.t) : EyeReadResponse.t :=
  let text := strip (EyeReadRequest.text payload) in
  let sentences :=
    map strip
      (filter (fun s => truthy (strip s))
         (split (chr ".") (replace (chr "?") (chr ".")
                             (replace (chr "!") (chr ".") text)))) in
  let summary := join (lit ". ") (firstn 2 sentences) in
  let summary :=
    if (2 <? length sentences)%nat then summary ++ lit "..." else summary in
  EyeReadResponse.mk text summary None.

(** ** Pathly (adaptive path) *)

Definition pathly_plan (payload : PathlyRequest.t) : PathlyResponse.t :=
  let topic := strip (PathlyRequest.topic payload) in
  let p := PathlyRequest.proficiency payload in
  if (p <=? 2)%Z then
    PathlyResponse.mk (lit "dasar")
      [ PathItem.mk (lit "Pengenalan " ++ topic) (lit "Memahami konsep inti")
          (lit "Baca ringkasan + 3 contoh");
        PathItem.mk (lit "Latihan ringan") (lit "Menguatkan pemahaman")
          (lit "Kerjakan 5 soal pilihan ganda") ]
      [ lit "Video pengantar 5 menit"; lit "Kartu ringkas istilah" ]
  else if (p =? 3)%Z then
    PathlyResponse.mk (lit "menengah")
      [ PathItem.mk (lit "Pendalaman " ++ topic) (lit "Menghubungkan konsep")
          (lit "Buat peta konsep sederhana");
        PathItem.mk (lit "Latihan terarah") (lit "Terapan dasar")
          (lit "Kerjakan 5 soal cerita") ]
      [ lit "Artikel ringkas"; lit "Latihan interaktif" ]
  else
    PathlyResponse.mk (lit "lanjutan")
      [ PathItem.mk (lit "Aplikasi " ++ topic) (lit "Pemecahan masalah")
          (lit "Proyek mini 1 halaman");
        PathItem.mk (lit "Refleksi") (lit "Menjelaskan ke orang lain")
          (lit "Tulis ringkasan 150 kata") ]
      [ lit "Bank soal tingkat lanjut"; lit "Topik terkait untuk eksplorasi" ].

(** * Properties *)

(** ** White space and [strip] *)

Lemma isspace_range c :
  isspace c = true -> c <= 0x20 \/ 0x85 <= c.
Proof.
  unfold isspace.
  repeat rewrite orb_true_iff. repeat rewrite andb_true_iff.
  repeat rewrite N.leb_le. repeat rewrite N.eqb_eq. lia.
Qed.

Lemma isspace_printable c :
  0x21 <= c <= 0x7E -> isspace c = false.
Proof.
  intros H. destruct (isspace c) eqn:E; [|reflexivity].
  apply isspace_range in E. lia.
Qed.

Lemma dropwhile_all {A} (p : A -> bool) ws s :
  forallb p ws = true -> dropwhile p (ws ++ s) = dropwhile p s.
Proof.
  induction ws as [|x ws IH]; simpl; [reflexivity|].
  intros H. apply andb_true_iff in H as [Hx Hws].
  rewrite Hx. auto.
Qed.

Lemma dropwhile_stop {A} (p : A -> bool) a x r :
  p x = false -> exists a', dropwhile p (a ++ x :: r) = a' ++ x :: r.
Proof.
  intros Hx. induction a as [|y a IH]; simpl.
  - rewrite Hx. now exists [].
  - destruct (p y); [exact IH|]. now exists (y :: a).
Qed.

Lemma dropwhile_decomp {A} (p : A -> bool) s :
  exists ws, s = ws ++ dropwhile p s /\ forallb p ws = true.
Proof.
  induction s as [|x s [ws [E H]]]; simpl.
  - now exists [].
  - destruct (p x) eqn:Hx.
    + exists (x :: ws). simpl. rewrite Hx, H. split; [congruence|reflexivity].
    + now exists [].
Qed.

Lemma dropwhile_head {A} (p : A -> bool) s x r :
  dropwhile p s = x :: r -> p x = false.
Proof.
  induction s as [|y s IH]; simpl; [discriminate|].
  destruct (p y) eqn:Hy; [exact IH|].
  intros E. injection E as -> _. exact Hy.
Qed.

Lemma In_dropwhile {A} (p : A -> bool) s x :
  In x (dropwhile p s) -> In x s.
Proof.
  induction s as [|y s IH]; simpl; [tauto|].
  destruct (p y); simpl; tauto.
Qed.

Lemma rstrip_cons_nonspace c r :
  isspace c = false -> rstrip (c :: r) = c :: rstrip r.
Proof. intros H. simpl. rewrite H. now destruct (rstrip r). Qed.

Lemma rstrip_cons_nonempty c r :
  rstrip r <> [] -> rstrip (c :: r) = c :: rstrip r.
Proof. intros H. simpl. destruct (rstrip r); [contradiction|reflexivity]. Qed.

Lemma rstrip_spaces ws :
  forallb isspace ws = true -> rstrip ws = [].
Proof.
  induction ws as [|x ws IH]; simpl; [reflexivity|].
  intros H. apply andb_true_iff in H as [Hx Hws].
  now rewrite (IH Hws), Hx.
Qed.

Lemma rstrip_app_spaces s ws :
  forallb isspace ws = true -> rstrip (s ++ ws) = rstrip s.
Proof.
  intros H. induction s as [|c s IH]; simpl.
  - now apply rstrip_spaces.
  - now rewrite IH.
Qed.

Lemma rstrip_decomp s :
  exists ws, s = rstrip s ++ ws /\ forallb isspace ws = true.
Proof.
  induction s as [|c s [ws [E H]]]; simpl.
  - now exists [].
  - destruct (rstrip s) as [|y r'] eqn:Er.
    + destruct (isspace c) eqn:Hc.
      * exists (c :: ws). simpl in *. rewrite Hc, H. split; [congruence|reflexivity].
      * exists ws. simpl in *. split; [congruence|assumption].
    + exists ws. split; [|assumption]. simpl. now rewrite E at 1.
Qed.

Lemma rstrip_last s u x :
  rstrip s = u ++ [x] -> isspace x = false.
Proof.
  revert u. induction s as [|c s IH]; simpl; intros u E.
  - now destruct u.
  - destruct (rstrip s) as [|y r'] eqn:Er.
    + destruct (isspace c) eqn:Hc; [now destruct u|].
      destruct u as [|u0 [|u1 u]]; try discriminate.
      injection E as ->. exact Hc.
    + destruct u as [|u0 u]; [discriminate|].
      injection E as _ E. now apply (IH u).
Qed.

Lemma rstrip_stop u c b :
  isspace c = false -> exists b', rstrip (u ++ c :: b) = u ++ c :: b'.
Proof.
  intros Hc. induction u as [|x u [b' IH]].
  - exists (rstrip b). now apply rstrip_cons_nonspace.
  - exists b'. change ((x :: u) ++ c :: b) with (x :: (u ++ c :: b)).
    rewrite rstrip_cons_nonempty; rewrite IH; [reflexivity|].
    now destruct u.
Qed.

Lemma In_rstrip s x : In x (rstrip s) -> In x s.
Proof.
  destruct (rstrip_decomp s) as [ws [E _]].
  intros H. rewrite E. apply in_or_app. now left.
Qed.

Lemma In_strip s x : In x (strip s) -> In x s.
Proof. intros H. now apply In_dropwhile with isspace, In_rstrip. Qed.

Lemma strip_app_left ws s :
  forallb isspace ws = true -> strip (ws ++ s) = strip s.
Proof. intros H. unfold strip, lstrip. now rewrite dropwhile_all. Qed.

Lemma strip_app_right s ws :
  forallb isspace ws = true -> strip (s ++ ws) = strip s.
Proof.
  intros H. unfold strip, lstrip. induction s as [|c s IH].
  - simpl. rewrite <- (app_nil_r ws), dropwhile_all by assumption. reflexivity.
  - cbn [app dropwhile]. destruct (isspace c) eqn:Hc; [exact IH|].
    exact (rstrip_app_spaces (c :: s) ws H).
Qed.

(** [strip] removes white space at the two ends and nothing else. *)
Lemma strip_decomp s :
  exists a b, s = a ++ strip s ++ b /\
              forallb isspace a = true /\ forallb isspace b = true.
Proof.
  destruct (dropwhile_decomp isspace s) as [a [Ea Ha]].
  destruct (rstrip_decomp (dropwhile isspace s)) as [b [Eb Hb]].
  exists a, b. unfold strip, lstrip. rewrite <- Eb. auto.
Qed.

Lemma strip_ends s :
  (forall x r, strip s = x :: r -> isspace x = false) /\
  (forall u x, strip s = u ++ [x] -> isspace x = false).
Proof.
  split.
  - intros x r E. unfold strip in E.
    destruct (rstrip_decomp (lstrip s)) as [ws [E' _]].
    rewrite E in E'. now apply dropwhile_head in E'.
  - intros u x E. now apply rstrip_last in E.
Qed.

(** A run of non-blank characters in the middle of a string survives
    [strip] with what was left and right of it. *)
Lemma strip_keeps_run a w b :
  w <> [] -> forallb (fun c => negb (isspace c)) w = true ->
  exists a' b', strip (a ++ w ++ b) = a' ++ w ++ b'.
Proof.
  intros Hne Hw.
  destruct w as [|c w]; [contradiction|].
  simpl in Hw. apply andb_true_iff in Hw as [Hc Hw]. apply negb_true_iff in Hc.
  destruct (dropwhile_stop isspace a c (w ++ b) Hc) as [a' Ea].
  destruct (@exists_last _ (c :: w)) as [w0 [d Ew]]; [discriminate|].
  assert (Hd : isspace d = false).
  { assert (In d (c :: w)) by (rewrite Ew; apply in_or_app; right; now left).
    destruct H as [<-|H]; [assumption|].
    rewrite forallb_forall in Hw. apply negb_true_iff. now apply Hw. }
  destruct (rstrip_stop (a' ++ w0) d b Hd) as [b' Eb].
  exists a', b'. unfold strip, lstrip.
  change (a ++ (c :: w) ++ b) with (a ++ c :: (w ++ b)). rewrite Ea.
  change (a' ++ c :: w ++ b) with (a' ++ (c :: w) ++ b).
  rewrite Ew. repeat rewrite <- app_assoc. simpl.
  repeat rewrite <- app_assoc in Eb. exact Eb.
Qed.


(** ** [replace], [split] and the segmentation *)

Lemma replace_app old new a b :
  replace old new (a ++ b) = replace old new a ++ replace old new b.
Proof. apply map_app. Qed.

Lemma replace_spaces old new ws :
  isspace old = false -> forallb isspace ws = true ->
  replace old new ws = ws.
Proof.
  intros Ho. induction ws as [|x ws IH]; simpl; [reflexivity|].
  intros H. apply andb_true_iff in H as [Hx Hws].
  destruct (N.eqb_spec x old) as [->|_]; [congruence|].
  f_equal. now apply IH.
Qed.

Lemma replace_removes old new s :
  new <> old -> ~ In old (replace old new s).
Proof.
  intros Hn H. apply in_map_iff in H as [c [E _]].
  destruct (N.eqb_spec c old); congruence.
Qed.

Lemma split_nonempty sep s : split sep s <> [].
Proof.
  destruct s as [|c r]; simpl; [discriminate|].
  destruct (c =? sep); [discriminate|].
  destruct (split sep r); discriminate.
Qed.

(** A fragment holds characters of the string only, and never the
    separator. *)
Lemma split_In sep s f c :
  In f (split sep s) -> In c f -> In c s /\ c <> sep.
Proof.
  revert f. induction s as [|x r IH]; simpl; intros f Hf Hc.
  - destruct Hf as [<-|[]]. destruct Hc.
  - destruct (N.eqb_spec x sep) as [->|Hx].
    + destruct Hf as [<-|Hf]; [destruct Hc|].
      destruct (IH f Hf Hc). auto.
    + destruct (split sep r) as [|g gs] eqn:Eg.
      * now destruct (split_nonempty sep r).
      * destruct Hf as [<-|Hf].
        -- destruct Hc as [<-|Hc]; [auto|].
           destruct (IH g (or_introl eq_refl) Hc). auto.
        -- destruct (IH f (or_intror Hf) Hc). auto.
Qed.

Lemma split_blank_left sep ws s :
  isspace sep = false -> forallb isspace ws = true ->
  map strip (split sep (ws ++ s)) = map strip (split sep s).
Proof.
  intros Hs. induction ws as [|x ws IH]; simpl; [reflexivity|].
  intros H. apply andb_true_iff in H as [Hx Hws].
  destruct (N.eqb_spec x sep) as [->|_]; [congruence|].
  rewrite <- (IH Hws).
  destruct (split sep (ws ++ s)) as [|f fs] eqn:E; simpl.
  - now destruct (split_nonempty sep (ws ++ s)).
  - f_equal. apply (strip_app_left [x]). simpl. now rewrite Hx.
Qed.

Lemma split_blank_right sep s ws :
  isspace sep = false -> forallb isspace ws = true ->
  exists L l, split sep s = L ++ [l] /\ split sep (s ++ ws) = L ++ [l ++ ws].
Proof.
  intros Hs Hws. induction s as [|c r (L & l & E1 & E2)].
  - exists [], []. split; [reflexivity|]. simpl.
    clear - Hs Hws. induction ws as [|x ws IH]; [reflexivity|].
    simpl in *. apply andb_true_iff in Hws as [Hx Hws].
    destruct (N.eqb_spec x sep) as [->|_]; [congruence|].
    now rewrite (IH Hws).
  - cbn [app split]. destruct (c =? sep).
    + exists ([] :: L), l. rewrite E1, E2. auto.
    + rewrite E1, E2. destruct L as [|f L].
      * exists [], (c :: l). auto.
      * exists ((c :: f) :: L), l. auto.
Qed.

Lemma segment_strip text : segment (strip text) = segment text.
Proof.
  unfold segment. f_equal.
  destruct (strip_decomp text) as (a & b & E & Ha & Hb).
  remember (strip text) as m eqn:Em. clear Em.
  rewrite E.
  repeat rewrite replace_app.
  assert (Hq : isspace (chr "?") = false) by reflexivity.
  assert (Hx : isspace (chr "!") = false) by reflexivity.
  assert (Hd : isspace (chr ".") = false) by reflexivity.
  repeat rewrite (replace_spaces _ _ a) by assumption.
  repeat rewrite (replace_spaces _ _ b) by assumption.
  rewrite split_blank_left by assumption.
  destruct (split_blank_right (chr ".")
              (replace (chr "?") (chr ".") (replace (chr "!") (chr ".") m))
              b Hd Hb) as (L & l & E1 & E2).
  rewrite E1, E2. repeat rewrite map_app. simpl.
  now rewrite strip_app_right.
Qed.

(** The comprehension of the handlers (filter on the stripped fragment, then
    strip) and the wording of the specification (strip, then drop the empty
    ones) build the same list. *)
Lemma comprehension_segment text :
  map strip
    (filter (fun s => truthy (strip s))
       (split (chr ".") (replace (chr "?") (chr ".")
                           (replace (chr "!") (chr ".") text))))
  = segment text.
Proof.
  unfold segment.
  induction (split _ _) as [|f fs IH]; simpl; [reflexivity|].
  destruct (truthy (strip f)); simpl; now rewrite IH.
Qed.

Lemma flexa_summary_summarize text :
  FlexaResponse.summary (flexa_convert (FlexaRequest.mk text)) = summarize text.
Proof.
  unfold flexa_convert, summarize. cbn [FlexaResponse.summary FlexaRequest.text].
  now rewrite comprehension_segment, segment_strip.
Qed.

Lemma eyeread_summary_summarize text :
  EyeReadResponse.summary (eyeread_scan (EyeReadRequest.mk text)) = summarize text.
Proof.
  unfold eyeread_scan, summarize.
  cbn [EyeReadResponse.summary EyeReadRequest.text].
  now rewrite comprehension_segment, segment_strip.
Qed.

(** Every sentence is non-empty, free of the three terminators and has no
    white space at either end. *)
Lemma segment_sentence text s :
  In s (segment text) ->
  s <> [] /\ ~ In (chr ".") s /\ ~ In (chr "!") s /\ ~ In (chr "?") s.
Proof.
  unfold segment. intros H.
  apply filter_In in H as [H Ht].
  apply in_map_iff in H as (f & <- & Hf).
  split; [intros E; now rewrite E in Ht|].
  assert (Hin : forall c, In c (strip f) ->
     In c (replace (chr "?") (chr ".") (replace (chr "!") (chr ".") text))
     /\ c <> chr ".").
  { intros c Hc. apply (split_In _ _ f); [assumption|now apply In_strip]. }
  split; [|split]; intros Hc; apply Hin in Hc as [Hc Hne].
  - now apply Hne.
  - apply in_map_iff in Hc as (c & Ec & Hc).
    destruct (N.eqb_spec c (chr "?")); [discriminate|].
    subst c. revert Hc. now apply replace_removes.
  - revert Hc. now apply replace_removes.
Qed.

Lemma summarize_three text s1 s2 s3 rest :
  segment text = s1 :: s2 :: s3 :: rest ->
  summarize text = s1 ++ lit ". " ++ s2 ++ lit "...".
Proof.
  intros E. unfold summarize. rewrite E.
  cbn [firstn join length Nat.ltb Nat.leb].
  now repeat rewrite <- app_assoc.
Qed.

(** ** Suffixes *)

Lemma endswith_app s p : endswith s p = true -> exists u, s = u ++ p.
Proof.
  unfold endswith, str_eqb. intros H.
  apply andb_true_iff in H as [_ H].
  destruct (list_eq_dec _ _ _) as [E|]; [|discriminate].
  exists (firstn (length s - length p) s).
  rewrite <- E at 2. symmetry. apply firstn_skipn.
Qed.

Lemma no_ellipsis_tail u d :
  d <> chr "." -> endswith (u ++ [d]) (lit "...") = false.
Proof.
  intros Hd. destruct (endswith _ _) eqn:E; [|reflexivity].
  apply endswith_app in E as [v E].
  change (lit "...") with ([chr "."; chr "."] ++ [chr "."]) in E.
  rewrite app_assoc in E. apply app_inj_tail in E as [_ E]. contradiction.
Qed.

Lemma sentence_tail s :
  s <> [] -> ~ In (chr ".") s -> exists u d, s = u ++ [d] /\ d <> chr ".".
Proof.
  intros Hne Hd. destruct (exists_last Hne) as (u & d & ->).
  exists u, d. split; [reflexivity|]. intros ->.
  apply Hd, in_or_app. right. now left.
Qed.

(** ** Substrings and [lower] *)

Lemma startswith_app k y : startswith (k ++ y) k = true.
Proof.
  induction k as [|c k IH]; [reflexivity|].
  simpl. now rewrite N.eqb_refl.
Qed.

Lemma contains_unfold k s :
  contains k s =
  startswith s k || match s with [] => false | _ :: r => contains k r end.
Proof. now destruct s. Qed.

Lemma contains_app k x y : contains k (x ++ k ++ y) = true.
Proof.
  induction x as [|c x IH].
  - simpl app. rewrite contains_unfold, startswith_app. reflexivity.
  - simpl. rewrite IH. apply orb_true_r.
Qed.

(** What a character is lowered to can depend on its neighbours (the final
    sigma), so [lower] does not distribute over [++]; the lowering of a
    suffix still appears unchanged at the end. *)
Lemma do_lower_app before a s :
  exists x, do_lower before (a ++ s) = x ++ do_lower (rev a ++ before) s.
Proof.
  revert before. induction a as [|c a IH]; intros before; [now exists []|].
  destruct (IH (c :: before)) as [x E].
  exists (lower_ucs4 before c (a ++ s) ++ x).
  simpl. rewrite E. now repeat rewrite <- app_assoc.
Qed.

Lemma ascii_IsCased_range c :
  ascii_IsCased c = true <-> 0x41 <= c <= 0x5A \/ 0x61 <= c <= 0x7A.
Proof.
  unfold ascii_IsCased.
  rewrite orb_true_iff. repeat rewrite andb_true_iff.
  repeat rewrite N.leb_le. reflexivity.
Qed.

Lemma ascii_IsCased_lower c :
  ascii_IsCased (ascii_lower c) = true -> ascii_IsCased c = true.
Proof.
  repeat rewrite ascii_IsCased_range. unfold ascii_lower.
  destruct (N.leb_spec 0x41 c), (N.leb_spec c 0x5A); simpl; lia.
Qed.

Lemma ascii_IsCased_nonspace w :
  forallb ascii_IsCased w = true ->
  forallb (fun c => negb (isspace c)) w = true.
Proof.
  repeat rewrite forallb_forall. intros H c Hc.
  apply H, ascii_IsCased_range in Hc.
  rewrite isspace_printable; [reflexivity|lia].
Qed.

Lemma ascii_letters_of_lower w k :
  map ascii_lower w = k -> forallb ascii_IsCased k = true ->
  forallb ascii_IsCased w = true.
Proof.
  intros <-. repeat rewrite forallb_forall. intros H c Hc.
  apply ascii_IsCased_lower, H, in_map, Hc.
Qed.

Section LowerOnAscii.

(** On the ASCII letters the table is the ASCII case conversion. *)
Hypothesis ToLowerFull_ascii :
  forall c, ascii_IsCased c = true -> ToLowerFull c = [ascii_lower c].

Lemma do_lower_ascii_run before w s :
  forallb ascii_IsCased w = true ->
  do_lower before (w ++ s) = map ascii_lower w ++ do_lower (rev w ++ before) s.
Proof.
  revert before. induction w as [|c w IH]; intros before H; [reflexivity|].
  simpl in H. apply andb_true_iff in H as [Hc Hw].
  simpl. rewrite (IH _ Hw). repeat rewrite <- app_assoc.
  unfold lower_ucs4. rewrite (ToLowerFull_ascii c Hc).
  apply ascii_IsCased_range in Hc.
  destruct (N.eqb_spec c 0x3A3); [lia|reflexivity].
Qed.

(** A question holding one of the four keywords, in any mix of upper and
    lower case, is answered by the computational branch. *)
Lemma keyword_takes_computational_branch k a w b level :
  In k keywords -> map ascii_lower w = k ->
  let r := neotutor_ask (AskRequest.mk (a ++ w ++ b) level) in
  AskResponse.steps r = computational_steps /\
  AskResponse.answer r =
    lit "Menjawab: '" ++ firstn 80 (strip (a ++ w ++ b)) ++ lit "'. "
    ++ computational_answer.
Proof.
  intros Hk Ew.
  assert (Hletters : forallb ascii_IsCased w = true).
  { apply (ascii_letters_of_lower w k Ew).
    unfold keywords in Hk. simpl in Hk.
    repeat destruct Hk as [<-|Hk]; try reflexivity. destruct Hk. }
  assert (Hne : w <> []).
  { intros ->. simpl in Ew. subst k. cbv in Hk.
    repeat (destruct Hk as [Hk|Hk]; [discriminate|]). exact Hk. }
  destruct (strip_keeps_run a w b Hne (ascii_IsCased_nonspace w Hletters))
    as (a' & b' & Es).
  assert (Hany : existsb (fun k => contains k (lower (strip (a ++ w ++ b))))
                   keywords = true).
  { apply existsb_exists. exists k. split; [assumption|].
    rewrite Es. unfold lower.
    destruct (do_lower_app [] a' (w ++ b')) as [x ->].
    rewrite do_lower_ascii_run, Ew by assumption.
    apply contains_app. }
  unfold neotutor_ask. cbn [AskRequest.question]. rewrite Hany.
  split; reflexivity.
Qed.

(** C1: a question that contains "rumus" in any letter case is answered by
    the computational branch (the four calculation steps and the
    formula-solving answer text), whatever stands around the keyword, a
    closing question mark included. *)
Theorem rumus_takes_computational_branch a w b level :
  map ascii_lower w = lit "rumus" ->
  let r := neotutor_ask (AskRequest.mk (a ++ w ++ b) level) in
  AskResponse.steps r = computational_steps /\
  AskResponse.answer r =
    lit "Menjawab: '" ++ firstn 80 (strip (a ++ w ++ b)) ++ lit "'. "
    ++ computational_answer.
Proof.
  apply keyword_takes_computational_branch. now left.
Qed.

End LowerOnAscii.

(** C7: the answer is "Menjawab: '", then the first 80 characters of the
    trimmed question, then "'. ", then the fixed answer text of the branch
    that the question selects. *)
Theorem answer_rendering question level :
  let q := strip question in
  AskResponse.answer (neotutor_ask (AskRequest.mk question level)) =
    lit "Menjawab: '" ++ firstn 80 q ++ lit "'. " ++
    (if existsb (fun k => contains k (lower q)) keywords
     then computational_answer
     else if endswith q (lit "?") then interrogative_answer
     else default_answer) /\
  length (firstn 80 q) = Nat.min 80 (length q).
Proof.
  intros q. subst q. split; [|apply length_firstn].
  unfold neotutor_ask. cbn [AskRequest.question].
  destruct (existsb _ _); [|destruct (endswith _ _)]; reflexivity.
Qed.

(** C8: the level has no effect: two requests with the same question and
    any two levels get the same answer, the same steps and the same tips. *)
Theorem level_has_no_effect question l1 l2 :
  let r1 := neotutor_ask (AskRequest.mk question l1) in
  let r2 := neotutor_ask (AskRequest.mk question l2) in
  AskResponse.answer r1 = AskResponse.answer r2 /\
  AskResponse.steps r1 = AskResponse.steps r2 /\
  AskResponse.tips r1 = AskResponse.tips r2.
Proof. repeat split. Qed.

(** ** Flexa and EyeRead *)

(** C3: when the segmentation of the text (terminators [!] and [?] turned
    into [.], split on [.], fragments trimmed, empty ones dropped) has more
    than two sentences, the summary of both handlers is the first sentence,
    ". ", the second sentence and then "..." with nothing in between. *)
Theorem summary_of_long_text text s1 s2 s3 rest :
  segment text = s1 :: s2 :: s3 :: rest ->
  FlexaResponse.summary (flexa_convert (FlexaRequest.mk text))
  = s1 ++ lit ". " ++ s2 ++ lit "..." /\
  EyeReadResponse.summary (eyeread_scan (EyeReadRequest.mk text))
  = s1 ++ lit ". " ++ s2 ++ lit "...".
Proof.
  intros E. rewrite flexa_summary_summarize, eyeread_summary_summarize.
  split; exact (summarize_three _ _ _ _ _ E).
Qed.

(** C5: when the segmentation has at most two sentences the summary does
    not end with "..."; with no sentence it is the empty string, and with
    exactly one it is that sentence as it stands. *)
Theorem summary_of_short_text text :
  (length (segment text) <= 2)%nat ->
  let s := FlexaResponse.summary (flexa_convert (FlexaRequest.mk text)) in
  endswith s (lit "...") = false /\
  (segment text = [] -> s = []) /\
  (forall s1, segment text = [s1] -> s = s1).
Proof.
  intros Hlen s. subst s. rewrite flexa_summary_summarize.
  unfold summarize.
  pose proof (segment_sentence text) as Hs.
  destruct (segment text) as [|s1 [|s2 [|s3 rest]]]; cbn [firstn join length Nat.ltb Nat.leb].
  - repeat split; intros; reflexivity || discriminate.
  - split; [|split; [discriminate|intros ? [= ->]; reflexivity]].
    destruct (Hs s1 (or_introl eq_refl)) as (Hne & Hd & _).
    destruct (sentence_tail s1 Hne Hd) as (u & d & -> & Hd').
    now apply no_ellipsis_tail.
  - split; [|split; discriminate].
    destruct (Hs s2 (or_intror (or_introl eq_refl))) as (Hne & Hd & _).
    destruct (sentence_tail s2 Hne Hd) as (u & d & -> & Hd').
    repeat rewrite app_assoc. now apply no_ellipsis_tail.
  - simpl in Hlen. lia.
Qed.

(** C6 (amended): [large_text] is the submitted text with the white space at
    its two ends removed, and otherwise character for character the same:
    the text is [a ++ large_text ++ b] for two runs of white space [a] and
    [b], and [large_text] neither starts nor ends with white space. *)
Theorem large_text_is_stripped_text text :
  let lt := FlexaResponse.large_text (flexa_convert (FlexaRequest.mk text)) in
  lt = strip text /\
  (exists a b, text = a ++ lt ++ b /\
               forallb isspace a = true /\ forallb isspace b = true) /\
  isspace (hd (chr "x") lt) = false /\ isspace (last lt (chr "x")) = false.
Proof.
  unfold flexa_convert. cbn [FlexaResponse.large_text FlexaRequest.text].
  split; [reflexivity|]. split; [apply strip_decomp|].
  destruct (strip_ends text) as [Hh Hl]. split.
  - destruct (strip text) as [|x r] eqn:E; [reflexivity|]. now apply (Hh x r).
  - destruct (strip text) as [|x r] eqn:E; [reflexivity|].
    destruct (@exists_last _ (x :: r)) as (u & d & Eu); [discriminate|].
    rewrite Eu, last_last. now apply (Hl u d).
Qed.

(** C9: on the same text the summary of [flexa_convert] and the summary of
    [eyeread_scan] are equal, and both are [summarize] of that text. *)
Theorem flexa_and_eyeread_summaries_agree text :
  FlexaResponse.summary (flexa_convert (FlexaRequest.mk text))
  = EyeReadResponse.summary (eyeread_scan (EyeReadRequest.mk text)) /\
  EyeReadResponse.summary (eyeread_scan (EyeReadRequest.mk text))
  = summarize text.
Proof.
  rewrite flexa_summary_summarize, eyeread_summary_summarize. auto.
Qed.

(** ** The sign-language gloss *)

Lemma In_firstn {A} n (l : list A) x : In x (firstn n l) -> In x l.
Proof.
  intros H. rewrite <- (firstn_skipn n l). apply in_or_app. now left.
Qed.

(** A word of the gloss is a non-empty fragment without a space and without
    a line feed. *)
Lemma gloss_word text w :
  In w (filter truthy (split (chr " ") (replace LF (chr " ") text))) ->
  w <> [] /\ ~ In (chr " ") w /\ ~ In LF w.
Proof.
  intros H. apply filter_In in H as [H Ht].
  split; [intros E; now rewrite E in Ht|].
  split; intros Hc; destruct (split_In _ _ _ _ H Hc) as [Hin Hne].
  - now apply Hne.
  - revert Hin. now apply replace_removes.
Qed.

Section UpperTable.

(** Two facts of the Unicode upper-case table: what a character is mapped to
    is itself left alone by the table, and neither a space nor a line feed
    comes out of another character. *)
Hypothesis ToUpperFull_idem :
  forall c d, In d (ToUpperFull c) -> ToUpperFull d = [d].
Hypothesis ToUpperFull_separators :
  forall c d, In d (ToUpperFull c) -> d = chr " " \/ d = LF -> c = d.

Lemma upper_idem s : upper (upper s) = upper s.
Proof.
  unfold upper. induction s as [|c s IH]; [reflexivity|].
  simpl. rewrite flat_map_app, IH. f_equal.
  pose proof (ToUpperFull_idem c) as H.
  induction (ToUpperFull c) as [|d l IHl]; [reflexivity|].
  simpl. rewrite (H d (or_introl eq_refl)). simpl. f_equal.
  apply IHl. intros e He. apply H. now right.
Qed.

Lemma upper_separator s d :
  d = chr " " \/ d = LF -> In d (upper s) -> In d s.
Proof.
  intros Hd H. apply in_flat_map in H as (c & Hc & Hin).
  now rewrite <- (ToUpperFull_separators c d Hin Hd).
Qed.

(** C4 (amended): the gloss has at most 8 tokens; every token is upper-case
    (upper-casing it again changes nothing) and holds neither a space nor a
    line feed.  Other white space is not excluded: a tab inside a word stays
    inside the token. *)
Theorem sign_gloss_tokens text :
  let g := FlexaResponse.sign_gloss (flexa_convert (FlexaRequest.mk text)) in
  (length g <= 8)%nat /\
  forall tok, In tok g ->
    upper tok = tok /\ ~ In (chr " ") tok /\ ~ In LF tok.
Proof.
  unfold flexa_convert. cbn [FlexaResponse.sign_gloss FlexaRequest.text].
  split.
  - rewrite length_map. apply firstn_le_length.
  - intros tok H. apply in_map_iff in H as (w & <- & Hw).
    apply In_firstn, gloss_word in Hw as (_ & Hsp & Hlf).
    split; [apply upper_idem|].
    split; intros H; [apply Hsp|apply Hlf];
      apply upper_separator in H; auto.
Qed.

End UpperTable.

(** ** Pathly *)

Lemma pathly_plan_shape payload :
  length (PathlyResponse.plan (pathly_plan payload)) = 2%nat /\
  length (PathlyResponse.recommended (pathly_plan payload)) = 2%nat.
Proof.
  unfold pathly_plan.
  destruct (_ <=? 2)%Z; [|destruct (_ =? 3)%Z]; split; reflexivity.
Qed.

Lemma pathly_plan_dasar payload :
  (PathlyRequest.proficiency payload <= 2)%Z ->
  PathlyResponse.level (pathly_plan payload) = lit "dasar".
Proof.
  intros H. unfold pathly_plan.
  apply Z.leb_le in H. rewrite H. reflexivity.
Qed.

Lemma pathly_plan_menengah payload :
  PathlyRequest.proficiency payload = 3%Z ->
  PathlyResponse.level (pathly_plan payload) = lit "menengah".
Proof.
  intros H. unfold pathly_plan. rewrite H. reflexivity.
Qed.

Lemma pathly_plan_lanjutan payload :
  (4 <= PathlyRequest.proficiency payload)%Z ->
  PathlyResponse.level (pathly_plan payload) = lit "lanjutan".
Proof.
  intros H. unfold pathly_plan.
  destruct (Z.leb_spec (PathlyRequest.proficiency payload) 2); [lia|].
  destruct (Z.eqb_spec (PathlyRequest.proficiency payload) 3); [lia|].
  reflexivity.
Qed.

(** C2: for a proficiency in 1..5 the level is "dasar" for 1 and 2,
    "menengah" for 3 and "lanjutan" for 4 and 5, whatever the topic, and the
    response always carries exactly two plan items and two recommendations. *)
Theorem pathly_plan_tiers_in_contract topic p :
  (1 <= p <= 5)%Z ->
  let r := pathly_plan (PathlyRequest.mk topic p) in
  (p = 1%Z \/ p = 2%Z -> PathlyResponse.level r = lit "dasar") /\
  (p = 3%Z -> PathlyResponse.level r = lit "menengah") /\
  (p = 4%Z \/ p = 5%Z -> PathlyResponse.level r = lit "lanjutan") /\
  length (PathlyResponse.plan r) = 2%nat /\
  length (PathlyResponse.recommended r) = 2%nat.
Proof.
  intros Hp r. subst r.
  repeat split; try apply pathly_plan_shape; intros H.
  - apply pathly_plan_dasar; simpl; lia.
  - apply pathly_plan_menengah; simpl; lia.
  - apply pathly_plan_lanjutan; simpl; lia.
Qed.

Lemma pathly_plan_tiers_in_contract_witness :
  (1 <= 5 <= 5)%Z /\
  PathlyResponse.level (pathly_plan (PathlyRequest.mk (lit "Pecahan") 5))
  = lit "lanjutan".
Proof.
  split; [lia|].
  apply (pathly_plan_tiers_in_contract (lit "Pecahan") 5); [lia | right; reflexivity].
Defined.

(** C10: the tier selection of the handler body is total over the integers:
    any [p <= 2] (0 and the negatives included) gives "dasar", 3 gives
    "menengah", any [p >= 4] (6 and above included) gives "lanjutan", always
    with two plan items and two recommendations.  The range check
    [PathlyRequest.valid] is not consulted by the body. *)
Theorem pathly_plan_total_over_integers topic (p : Z) :
  let r := pathly_plan (PathlyRequest.mk topic p) in
  ((p <= 2)%Z -> PathlyResponse.level r = lit "dasar") /\
  (p = 3%Z -> PathlyResponse.level r = lit "menengah") /\
  ((p >= 4)%Z -> PathlyResponse.level r = lit "lanjutan") /\
  length (PathlyResponse.plan r) = 2%nat /\
  length (PathlyResponse.recommended r) = 2%nat.
Proof.
  intros r. subst r.
  repeat split; try apply pathly_plan_shape; intros H.
  - now apply pathly_plan_dasar.
  - now apply pathly_plan_menengah.
  - apply pathly_plan_lanjutan; simpl; lia.
Qed.

Lemma pathly_plan_total_over_integers_witness :
  PathlyRequest.valid (PathlyRequest.mk (lit "Pecahan") 0) = false /\
  PathlyRequest.valid (PathlyRequest.mk (lit "Pecahan") 6) = false /\
  PathlyResponse.level (pathly_plan (PathlyRequest.mk (lit "Pecahan") 0))
  = lit "dasar" /\
  PathlyResponse.level (pathly_plan (PathlyRequest.mk (lit "Pecahan") 6))
  = lit "lanjutan".
Proof.
  split; [reflexivity|]. split; [reflexivity|]. split.
  - apply (pathly_plan_total_over_integers (lit "Pecahan") 0); lia.
  - apply (pathly_plan_total_over_integers (lit "Pecahan") 6); lia.
Defined.

(** * Further properties of the handlers *)

(** ** White space around the input *)

Lemma strip_blank s : forallb isspace s = true -> strip s = [].
Proof.
  intros H. rewrite <- (app_nil_r s). now rewrite strip_app_left.
Qed.

Lemma strip_surround a s b :
  forallb isspace a = true -> forallb isspace b = true ->
  strip (a ++ s ++ b) = strip s.
Proof.
  intros Ha Hb. now rewrite strip_app_left, strip_app_right.
Qed.

Lemma strip_idem s : strip (strip s) = strip s.
Proof.
  destruct (strip_decomp s) as (a & b & E & Ha & Hb).
  rewrite E at 2. now rewrite strip_surround.
Qed.

(** A question wrapped in white space is answered like the bare question. *)
Theorem neotutor_ask_ignores_outer_blanks a question b level :
  forallb isspace a = true -> forallb isspace b = true ->
  neotutor_ask (AskRequest.mk (a ++ question ++ b) level)
  = neotutor_ask (AskRequest.mk question level).
Proof.
  intros Ha Hb. unfold neotutor_ask. cbn [AskRequest.question].
  now rewrite strip_surround.
Qed.

(** A question made of white space only is trimmed to the empty string: the
    default branch answers it and echoes nothing.  The length constraint of
    the request model counts the untrimmed characters, so it does not keep
    such a question out. *)
Theorem neotutor_ask_blank_question question level :
  forallb isspace question = true ->
  let r := neotutor_ask (AskRequest.mk question level) in
  AskResponse.answer r = lit "Menjawab: ''. " ++ default_answer /\
  AskResponse.steps r = default_steps.
Proof.
  intros H. unfold neotutor_ask. cbn [AskRequest.question].
  rewrite (strip_blank _ H). split; reflexivity.
Qed.

(** The text handlers see the text without the white space around it. *)
Theorem text_handlers_ignore_outer_blanks a text b :
  forallb isspace a = true -> forallb isspace b = true ->
  flexa_convert (FlexaRequest.mk (a ++ text ++ b))
  = flexa_convert (FlexaRequest.mk text) /\
  eyeread_scan (EyeReadRequest.mk (a ++ text ++ b))
  = eyeread_scan (EyeReadRequest.mk text).
Proof.
  intros Ha Hb. unfold flexa_convert, eyeread_scan.
  cbn [FlexaRequest.text EyeReadRequest.text].
  now rewrite strip_surround.
Qed.

(** A text of white space only passes the length constraint and comes back
    as an empty text with an empty summary and no gloss token. *)
Theorem text_handlers_blank_text text :
  forallb isspace text = true ->
  flexa_convert (FlexaRequest.mk text) = FlexaResponse.mk None [] [] [] /\
  eyeread_scan (EyeReadRequest.mk text) = EyeReadResponse.mk [] [] None.
Proof.
  intros H. unfold flexa_convert, eyeread_scan.
  cbn [FlexaRequest.text EyeReadRequest.text].
  rewrite (strip_blank _ H). split; reflexivity.
Qed.

(** ** NeoTutor: the shape of a response *)

(** Steps and answer text always come from the same branch, there are four
    steps and the three fixed tips, whatever the question. *)
Theorem neotutor_ask_branches_consistent question level :
  let r := neotutor_ask (AskRequest.mk question level) in
  AskResponse.tips r = tutor_tips /\
  length (AskResponse.tips r) = 3%nat /\
  length (AskResponse.steps r) = 4%nat /\
  exists body,
    AskResponse.answer r
    = lit "Menjawab: '" ++ firstn 80 (strip question) ++ lit "'. " ++ body /\
    In (AskResponse.steps r, body)
       [ (computational_steps, computational_answer);
         (interrogative_steps, interrogative_answer);
         (default_steps, default_answer) ].
Proof.
  unfold neotutor_ask. cbn [AskRequest.question].
  destruct (existsb _ _); [|destruct (endswith _ _)];
    (split; [reflexivity|]); (split; [reflexivity|]);
    (split; [reflexivity|]).
  - exists computational_answer. split; [reflexivity|]. now left.
  - exists interrogative_answer. split; [reflexivity|]. right. now left.
  - exists default_answer. split; [reflexivity|]. right. right. now left.
Qed.

(** The answer is bounded whatever the length of the question: at most 80
    characters of it are echoed, so the answer has between 60 and 170
    characters. *)
Theorem neotutor_ask_answer_length question level :
  let n := length (AskResponse.answer
                     (neotutor_ask (AskRequest.mk question level))) in
  (60 <= n <= 170)%nat /\
  (n <= 90 + length (strip question))%nat.
Proof.
  unfold neotutor_ask. cbn [AskRequest.question AskResponse.answer].
  pose proof (length_firstn 80 (strip question)) as Hf.
  destruct (existsb _ _); [|destruct (endswith _ _)];
    cbn [AskResponse.answer]; repeat rewrite length_app; rewrite Hf;
    change (length (lit "Menjawab: '")) with 11%nat;
    change (length (lit "'. ")) with 3%nat.
  - change (length computational_answer) with 76%nat. lia.
  - change (length interrogative_answer) with 71%nat. lia.
  - change (length default_answer) with 46%nat. lia.
Qed.

Section AnyKeyword.

Hypothesis ToLowerFull_ascii :
  forall c, ascii_IsCased c = true -> ToLowerFull c = [ascii_lower c].

(** Each of the four keywords, in any mix of upper and lower case and at any
    place of the question, selects the computational branch. *)
Theorem every_keyword_takes_computational_branch k a w b level :
  In k keywords -> map ascii_lower w = k ->
  let r := neotutor_ask (AskRequest.mk (a ++ w ++ b) level) in
  AskResponse.steps r = computational_steps /\
  AskResponse.answer r =
    lit "Menjawab: '" ++ firstn 80 (strip (a ++ w ++ b)) ++ lit "'. "
    ++ computational_answer.
Proof.
  intros Hk Ew. now apply (keyword_takes_computational_branch ToLowerFull_ascii k).
Qed.

End AnyKeyword.

(** ** The summary *)

Lemma In_replace old new s c :
  In c (replace old new s) -> c = new \/ (In c s /\ c <> old).
Proof.
  intros H. apply in_map_iff in H as (x & E & Hx).
  destruct (N.eqb_spec x old) as [Heq|Hne]; subst c; [now left|].
  right. now split.
Qed.

Lemma In_join sep l c :
  In c (join sep l) -> In c sep \/ exists s, In s l /\ In c s.
Proof.
  induction l as [|x l IH]; [intros []|].
  destruct l as [|y l].
  - intros H. right. exists x. split; [now left|assumption].
  - change (join sep (x :: y :: l)) with (x ++ sep ++ join sep (y :: l)).
    intros H. apply in_app_or in H as [H|H].
    + right. exists x. split; [now left|assumption].
    + apply in_app_or in H as [H|H]; [now left|].
      destruct (IH H) as [Hs|(s & Hs & Hc)]; [now left|].
      right. exists s. split; [now right|assumption].
Qed.

Lemma segment_chars text s c :
  In s (segment text) -> In c s ->
  In c text /\ c <> chr "." /\ c <> chr "!" /\ c <> chr "?".
Proof.
  intros Hs Hc.
  destruct (segment_sentence text s Hs) as (_ & Hd & Hx & Hq).
  assert (Hnd : c <> chr ".") by (intros ->; contradiction).
  assert (Hnx : c <> chr "!") by (intros ->; contradiction).
  assert (Hnq : c <> chr "?") by (intros ->; contradiction).
  repeat split; try assumption.
  unfold segment in Hs. apply filter_In in Hs as [Hs _].
  apply in_map_iff in Hs as (f & <- & Hf).
  apply In_strip in Hc.
  destruct (split_In _ _ _ _ Hf Hc) as [Hin _].
  apply In_replace in Hin as [->|[Hin _]]; [contradiction|].
  apply In_replace in Hin as [->|[Hin _]]; [contradiction|assumption].
Qed.

(** A summary is written with characters of the text, dots and spaces; an
    exclamation or question mark of the text never reaches it. *)
Theorem summary_alphabet text c :
  In c (FlexaResponse.summary (flexa_convert (FlexaRequest.mk text))) ->
  c <> chr "!" /\ c <> chr "?" /\
  (c = chr "." \/ c = chr " " \/ In c text).
Proof.
  rewrite flexa_summary_summarize. unfold summarize. intros H.
  assert (Hsep : forall d, In d (lit ". ") ->
            d <> chr "!" /\ d <> chr "?" /\ (d = chr "." \/ d = chr " " \/ In d text)).
  { intros d [<-|[<-|[]]]; repeat split; try discriminate; auto. }
  assert (Hell : forall d, In d (lit "...") ->
            d <> chr "!" /\ d <> chr "?" /\ (d = chr "." \/ d = chr " " \/ In d text)).
  { intros d [<-|[<-|[<-|[]]]]; repeat split; try discriminate; auto. }
  assert (Hj : In c (join (lit ". ") (firstn 2 (segment text))) ->
            c <> chr "!" /\ c <> chr "?" /\ (c = chr "." \/ c = chr " " \/ In c text)).
  { intros Hc. apply In_join in Hc as [Hc|(s & Hs & Hc)]; [now apply Hsep|].
    apply In_firstn in Hs.
    destruct (segment_chars text s c Hs Hc) as (Hin & _ & Hx & Hq). auto. }
  destruct (2 <? length (segment text))%nat; [|now apply Hj].
  apply in_app_or in H as [H|H]; [now apply Hj|now apply Hell].
Qed.

Lemma split_length sep s :
  (length (concat (split sep s)) + length (split sep s) = S (length s))%nat.
Proof.
  induction s as [|c r IH]; [reflexivity|].
  simpl. destruct (c =? sep).
  - simpl. lia.
  - destruct (split sep r) as [|f fs] eqn:E.
    + now destruct (split_nonempty sep r).
    + simpl in *. lia.
Qed.

Lemma strip_length s : (length (strip s) <= length s)%nat.
Proof.
  destruct (strip_decomp s) as (a & b & E & _).
  rewrite E at 2. repeat rewrite length_app. lia.
Qed.

Lemma sentences_length L :
  let S := filter truthy (map strip L) in
  (length (concat S) <= length (concat L))%nat /\
  (length S <= length L)%nat.
Proof.
  induction L as [|f L [IH1 IH2]]; [split; reflexivity|].
  cbn [map filter]. pose proof (strip_length f).
  destruct (truthy (strip f)); cbn [concat length];
    repeat rewrite length_app; split; lia.
Qed.

Lemma summarize_length text :
  (length (summarize text) <= length text + 2)%nat.
Proof.
  unfold summarize.
  pose proof (segment_sentence text) as Hne.
  unfold segment in *.
  set (R := replace (chr "?") (chr ".") (replace (chr "!") (chr ".") text)) in *.
  assert (HR : length R = length text)
    by (unfold R, replace; now repeat rewrite length_map).
  pose proof (split_length (chr ".") R) as Hsp.
  destruct (sentences_length (split (chr ".") R)) as [H1 H2].
  destruct (filter truthy (map strip (split (chr ".") R)))
    as [|s1 [|s2 [|s3 rest]]];
    cbn [firstn join length Nat.ltb Nat.leb concat] in *;
    repeat rewrite length_app in *;
    change (length (lit ". ")) with 2%nat;
    change (length (lit "...")) with 3%nat.
  - lia.
  - lia.
  - lia.
  - destruct (Hne s3) as [Hs3 _]; [right; right; now left|].
    destruct s3; [contradiction|]. cbn [length] in *. lia.
Qed.

(** A summary is at most two characters longer than the text, and that
    excess is reached: "a.b.c" is summarised as "a. b...". *)
Theorem summary_length_bound :
  (forall text,
     (length (FlexaResponse.summary (flexa_convert (FlexaRequest.mk text)))
      <= length text + 2)%nat /\
     (length (EyeReadResponse.summary (eyeread_scan (EyeReadRequest.mk text)))
      <= length text + 2)%nat) /\
  EyeReadResponse.summary (eyeread_scan (EyeReadRequest.mk (lit "a.b.c")))
  = lit "a. b...".
Proof.
  split; [|reflexivity].
  intros text. rewrite flexa_summary_summarize, eyeread_summary_summarize.
  split; apply summarize_length.
Qed.

(** ** Summarising a summary *)

Lemma replace_id old new s : ~ In old s -> replace old new s = s.
Proof.
  induction s as [|c s IH]; [reflexivity|].
  intros H. simpl. destruct (N.eqb_spec c old) as [->|_].
  - exfalso. apply H. now left.
  - f_equal. apply IH. intros Hin. apply H. now right.
Qed.

Lemma split_nosep sep s : ~ In sep s -> split sep s = [s].
Proof.
  induction s as [|c s IH]; [reflexivity|].
  intros H. simpl. destruct (N.eqb_spec c sep) as [->|_].
  - exfalso. apply H. now left.
  - rewrite IH; [reflexivity|]. intros Hin. apply H. now right.
Qed.

Lemma split_app_sep sep f rest :
  ~ In sep f -> split sep (f ++ sep :: rest) = f :: split sep rest.
Proof.
  induction f as [|c f IH]; intros H.
  - simpl. now rewrite N.eqb_refl.
  - simpl. destruct (N.eqb_spec c sep) as [->|_].
    + exfalso. apply H. now left.
    + rewrite IH; [reflexivity|]. intros Hin. apply H. now right.
Qed.

(** A run without terminators in front of a dot is one fragment. *)
Lemma segment_cons f rest :
  ~ In (chr ".") f -> ~ In (chr "!") f -> ~ In (chr "?") f ->
  segment (f ++ chr "." :: rest) = filter truthy [strip f] ++ segment rest.
Proof.
  intros Hd Hx Hq. unfold segment.
  repeat rewrite replace_app. repeat rewrite (replace_id _ _ f) by assumption.
  change (replace (chr "?") (chr ".") (replace (chr "!") (chr ".") (chr "." :: rest)))
    with (chr "." :: replace (chr "?") (chr ".") (replace (chr "!") (chr ".") rest)).
  rewrite split_app_sep by assumption.
  cbn [map filter]. now destruct (truthy (strip f)).
Qed.

Lemma segment_single f :
  ~ In (chr ".") f -> ~ In (chr "!") f -> ~ In (chr "?") f ->
  segment f = filter truthy [strip f].
Proof.
  intros Hd Hx Hq. unfold segment.
  repeat rewrite (replace_id _ _ f) by assumption.
  now rewrite split_nosep.
Qed.

Lemma sentence_stripped text s : In s (segment text) -> strip s = s.
Proof.
  unfold segment. intros H. apply filter_In in H as [H _].
  apply in_map_iff in H as (f & <- & _). apply strip_idem.
Qed.

Lemma sentence_after_blank s :
  s <> [] -> strip s = s -> filter truthy [strip (chr " " :: s)] = [s].
Proof.
  intros Hne Hs. change (chr " " :: s) with ([chr " "] ++ s).
  rewrite (strip_app_left [chr " "] s) by reflexivity.
  rewrite Hs. now destruct s.
Qed.

Lemma sentence_alone s :
  s <> [] -> strip s = s -> filter truthy [strip s] = [s].
Proof. intros Hne ->. now destruct s. Qed.

Lemma not_In_cons {A} (x y : A) l : x <> y -> ~ In x l -> ~ In x (y :: l).
Proof. intros Hne Hl [E|Hin]; [now apply Hne|now apply Hl]. Qed.

(** The sentences of a summary are the first two sentences of the text. *)
Lemma segment_summarize text :
  segment (summarize text) = firstn 2 (segment text).
Proof.
  unfold summarize.
  pose proof (segment_sentence text) as Hs.
  pose proof (sentence_stripped text) as Hst.
  destruct (segment text) as [|s1 [|s2 [|s3 rest]]];
    cbn [firstn join length Nat.ltb Nat.leb].
  - reflexivity.
  - destruct (Hs s1) as (Hne & Hd & Hx & Hq); [now left|].
    rewrite segment_single by assumption.
    apply sentence_alone; [assumption|]. apply Hst. now left.
  - destruct (Hs s1) as (Hne1 & Hd1 & Hx1 & Hq1); [now left|].
    destruct (Hs s2) as (Hne2 & Hd2 & Hx2 & Hq2); [right; now left|].
    change (segment (s1 ++ chr "." :: (chr " " :: s2)) = [s1; s2]).
    rewrite segment_cons by assumption.
    rewrite segment_single by (apply not_In_cons; [discriminate|assumption]).
    rewrite sentence_alone by (try assumption; apply Hst; now left).
    rewrite sentence_after_blank by (try assumption; apply Hst; right; now left).
    reflexivity.
  - destruct (Hs s1) as (Hne1 & Hd1 & Hx1 & Hq1); [now left|].
    destruct (Hs s2) as (Hne2 & Hd2 & Hx2 & Hq2); [right; now left|].
    repeat rewrite <- app_assoc.
    change (segment (s1 ++ chr "." :: ((chr " " :: s2) ++ chr "." :: lit ".."))
            = [s1; s2]).
    rewrite segment_cons by assumption.
    rewrite segment_cons by (apply not_In_cons; [discriminate|assumption]).
    rewrite sentence_alone by (try assumption; apply Hst; now left).
    rewrite sentence_after_blank by (try assumption; apply Hst; right; now left).
    reflexivity.
Qed.

Lemma summarize_twice text :
  summarize (summarize text) = join (lit ". ") (firstn 2 (segment text)).
Proof.
  unfold summarize at 1. rewrite segment_summarize, firstn_firstn.
  change (Nat.min 2 2) with 2%nat.
  pose proof (firstn_le_length 2 (segment text)) as H.
  destruct (Nat.ltb_spec 2 (length (firstn 2 (segment text)))); [lia|reflexivity].
Qed.

Lemma summarize_fixed text :
  summarize (summarize (summarize text)) = summarize (summarize text).
Proof.
  rewrite (summarize_twice (summarize text)), segment_summarize, firstn_firstn.
  change (Nat.min 2 2) with 2%nat. symmetry. apply summarize_twice.
Qed.

(** Summarising a summary keeps the two sentences and drops the "..."; from
    then on summarising changes nothing. *)
Theorem summary_of_summary text :
  let s1 := FlexaResponse.summary (flexa_convert (FlexaRequest.mk text)) in
  let s2 := EyeReadResponse.summary (eyeread_scan (EyeReadRequest.mk s1)) in
  s2 = join (lit ". ") (firstn 2 (segment text)) /\
  EyeReadResponse.summary (eyeread_scan (EyeReadRequest.mk s2)) = s2 /\
  FlexaResponse.summary (flexa_convert (FlexaRequest.mk s2)) = s2.
Proof.
  cbv zeta.
  repeat rewrite flexa_summary_summarize. repeat rewrite eyeread_summary_summarize.
  split; [apply summarize_twice|].
  split; apply summarize_fixed.
Qed.

(** ** Where the gloss tokens come from *)

Lemma split_head_prefix sep s f fs :
  split sep s = f :: fs -> exists b, s = f ++ b.
Proof.
  revert f fs. induction s as [|c r IH]; simpl; intros f fs E.
  - injection E as <- _. now exists [].
  - destruct (c =? sep).
    + injection E as <- _. now exists (c :: r).
    + destruct (split sep r) as [|g gs] eqn:Eg.
      * injection E as <- _. destruct (split_nonempty sep r Eg).
      * injection E as <- _. destruct (IH g gs eq_refl) as [b ->].
        now exists b.
Qed.

(** A fragment is a contiguous run of the string. *)
Lemma split_substring sep s f :
  In f (split sep s) -> exists a b, s = a ++ f ++ b.
Proof.
  revert f. induction s as [|c r IH]; simpl; intros f H.
  - destruct H as [<-|[]]. now exists [], [].
  - destruct (c =? sep).
    + destruct H as [<-|H]; [now exists [], (c :: r)|].
      destruct (IH f H) as (a & b & ->). now exists (c :: a), b.
    + destruct (split sep r) as [|g gs] eqn:Eg.
      * destruct (split_nonempty sep r Eg).
      * destruct H as [<-|H].
        -- destruct (split_head_prefix sep r g gs Eg) as [b ->].
           now exists [], b.
        -- destruct (IH f (or_intror H)) as (a & b & ->).
           now exists (c :: a), b.
Qed.

Lemma replace_run old new s a w b :
  replace old new s = a ++ w ++ b -> ~ In new w ->
  exists a' b', s = a' ++ w ++ b'.
Proof.
  intros E Hw. unfold replace in E.
  apply map_eq_app in E as (a' & r & -> & _ & E).
  apply map_eq_app in E as (w' & b' & -> & E & _).
  exists a', b'. do 2 f_equal.
  rewrite <- E. symmetry. rewrite <- (map_id w') at 2.
  apply map_ext_in. intros c Hc.
  destruct (N.eqb_spec c old) as [->|_]; [|reflexivity].
  exfalso. apply Hw. rewrite <- E. apply in_map_iff.
  exists old. now rewrite N.eqb_refl.
Qed.

(** Every gloss token is the upper-casing of a non-empty contiguous run of
    the submitted text. *)
Theorem sign_gloss_from_text text tok :
  In tok (FlexaResponse.sign_gloss (flexa_convert (FlexaRequest.mk text))) ->
  exists a w b, text = a ++ w ++ b /\ w <> [] /\ tok = upper w.
Proof.
  unfold flexa_convert. cbn [FlexaResponse.sign_gloss FlexaRequest.text].
  intros H. apply in_map_iff in H as (w & <- & Hw).
  apply In_firstn in Hw.
  destruct (gloss_word _ _ Hw) as (Hne & Hsp & _).
  apply filter_In in Hw as [Hw _].
  apply split_substring in Hw as (a & b & E).
  apply replace_run in E as (a' & b' & E); [|assumption].
  destruct (strip_decomp text) as (x & y & Et & _).
  exists (x ++ a'), w, (b' ++ y). split; [|split; [assumption|reflexivity]].
  rewrite Et at 1. rewrite E. now repeat rewrite <- app_assoc.
Qed.

(** ** Pathly *)

(** The level names the tier: it is "dasar" exactly for a proficiency of at
    most 2, "menengah" exactly for 3 and "lanjutan" exactly from 4 on. *)
Theorem pathly_level_names_the_tier topic p :
  let l := PathlyResponse.level (pathly_plan (PathlyRequest.mk topic p)) in
  (l = lit "dasar" <-> (p <= 2)%Z) /\
  (l = lit "menengah" <-> p = 3%Z) /\
  (l = lit "lanjutan" <-> (4 <= p)%Z).
Proof.
  unfold pathly_plan. cbn [PathlyRequest.proficiency].
  destruct (Z.leb_spec p 2); [|destruct (Z.eqb_spec p 3)];
    cbn [PathlyResponse.level];
    repeat split; intros H'; try lia; try reflexivity; discriminate H'.
Qed.

(** Two plans for the same proficiency differ only in the topic, which is
    trimmed and put at the end of the first title; level, second item and
    recommendations do not depend on the topic. *)
Theorem pathly_topic_only_in_first_title t1 t2 p :
  let r1 := pathly_plan (PathlyRequest.mk t1 p) in
  let r2 := pathly_plan (PathlyRequest.mk t2 p) in
  PathlyResponse.level r1 = PathlyResponse.level r2 /\
  PathlyResponse.recommended r1 = PathlyResponse.recommended r2 /\
  exists prefix objective activity second,
    prefix <> [] /\
    PathlyResponse.plan r1
    = [PathItem.mk (prefix ++ strip t1) objective activity; second] /\
    PathlyResponse.plan r2
    = [PathItem.mk (prefix ++ strip t2) objective activity; second].
Proof.
  unfold pathly_plan. cbn [PathlyRequest.proficiency PathlyRequest.topic].
  destruct (p <=? 2)%Z; [|destruct (p =? 3)%Z];
    (split; [reflexivity|]); (split; [reflexivity|]);
    eexists _, _, _, _; (split; [|split; reflexivity]); discriminate.
Qed.

(** ** EchoForum *)

(** The number of posts asked of the store is always between 1 and 100: a
    limit in that range is passed on as it is, a smaller one becomes 1 and a
    larger one 100. *)
Theorem forum_query_limit_clamped limit :
  (1 <= forum_query_limit limit <= 100)%Z /\
  ((1 <= limit <= 100)%Z -> forum_query_limit limit = limit) /\
  ((limit < 1)%Z -> forum_query_limit limit = 1%Z) /\
  ((100 < limit)%Z -> forum_query_limit limit = 100%Z).
Proof. unfold forum_query_limit. lia. Qed.

(** ** NeoTutor: letter case of an ASCII question *)

Lemma dropwhile_map {A} (p : A -> bool) (f : A -> A) s :
  (forall c, p (f c) = p c) ->
  dropwhile p (map f s) = map f (dropwhile p s).
Proof.
  intros Hp. induction s as [|c s IH]; [reflexivity|].
  simpl. rewrite Hp. now destruct (p c).
Qed.

Lemma rstrip_map f s :
  (forall c, isspace (f c) = isspace c) ->
  rstrip (map f s) = map f (rstrip s).
Proof.
  intros Hp. induction s as [|c s IH]; [reflexivity|].
  simpl. rewrite IH, Hp.
  destruct (rstrip s); simpl; [now destruct (isspace c)|reflexivity].
Qed.

Lemma strip_map f s :
  (forall c, isspace (f c) = isspace c) ->
  strip (map f s) = map f (strip s).
Proof.
  intros Hp. unfold strip, lstrip.
  now rewrite dropwhile_map, rstrip_map.
Qed.

Lemma endswith_last s x :
  endswith s [x] = true <-> exists u, s = u ++ [x].
Proof.
  split; [apply endswith_app|].
  intros [u ->]. unfold endswith.
  apply andb_true_iff. split.
  - apply Nat.leb_le. rewrite length_app. simpl. lia.
  - replace (length (u ++ [x]) - length [x])%nat with (length u)
      by (rewrite length_app; simpl; lia).
    rewrite skipn_app, skipn_all, Nat.sub_diag. simpl.
    unfold str_eqb. now destruct (list_eq_dec N.eq_dec [x] [x]).
Qed.

Lemma endswith_map f s x :
  (forall c, f c = x <-> c = x) ->
  endswith (map f s) [x] = endswith s [x].
Proof.
  intros Hf.
  destruct (endswith s [x]) eqn:E.
  - apply endswith_last in E as [u ->]. apply endswith_last.
    exists (map f u). rewrite map_app. simpl. do 2 f_equal. now apply Hf.
  - destruct (endswith (map f s) [x]) eqn:E'; [|reflexivity].
    apply endswith_last in E' as [u E'].
    apply map_eq_app in E' as (u' & l & -> & _ & El).
    destruct l as [|c [|d l]]; try discriminate.
    simpl in El. injection El as El. apply (proj1 (Hf c)) in El. subst c.
    rewrite <- E. symmetry. apply endswith_last. now exists u'.
Qed.

Lemma ascii_lower_upper c : ascii_lower (ascii_upper c) = ascii_lower c.
Proof.
  unfold ascii_lower, ascii_upper.
  destruct (N.leb_spec 0x61 c), (N.leb_spec c 0x7A); cbn [andb];
    try reflexivity.
  destruct (N.leb_spec 0x41 (c - 32)), (N.leb_spec (c - 32) 0x5A);
    cbn [andb]; try lia.
  destruct (N.leb_spec 0x41 c), (N.leb_spec c 0x5A); cbn [andb]; lia.
Qed.

Lemma ascii_upper_facts c :
  isspace (ascii_upper c) = isspace c /\
  (c < 128 -> ascii_upper c < 128) /\
  (ascii_upper c = chr "?" <-> c = chr "?").
Proof.
  unfold ascii_upper, chr. simpl N_of_ascii.
  destruct (N.leb_spec 0x61 c), (N.leb_spec c 0x7A); cbn [andb];
    try (split; [reflexivity|split; [auto|reflexivity]]).
  split; [|split; [|split]]; try lia.
  rewrite (isspace_printable c) by lia.
  apply isspace_printable. lia.
Qed.

Section AsciiQuestion.

(** On the code points below 128 the table is the ASCII case conversion. *)
Hypothesis ToLowerFull_below_128 :
  forall c, c < 128 -> ToLowerFull c = [ascii_lower c].

Lemma do_lower_below_128 before s :
  forallb (fun c => c <? 128) s = true ->
  do_lower before s = map ascii_lower s.
Proof.
  revert before. induction s as [|c s IH]; intros before H; [reflexivity|].
  simpl in H. apply andb_true_iff in H as [Hc Hs]. apply N.ltb_lt in Hc.
  simpl. rewrite (IH _ Hs). unfold lower_ucs4.
  destruct (N.eqb_spec c 0x3A3); [lia|].
  now rewrite ToLowerFull_below_128.
Qed.

Lemma strip_below_128 s :
  forallb (fun c => c <? 128) s = true ->
  forallb (fun c => c <? 128) (strip s) = true.
Proof.
  repeat rewrite forallb_forall. intros H c Hc. now apply H, In_strip.
Qed.

(** The branch does not depend on the letter case of an ASCII question:
    writing it in capitals selects the same steps. *)
Theorem neotutor_ask_case_insensitive question level :
  forallb (fun c => c <? 128) question = true ->
  AskResponse.steps
    (neotutor_ask (AskRequest.mk (map ascii_upper question) level))
  = AskResponse.steps (neotutor_ask (AskRequest.mk question level)).
Proof.
  intros H. unfold neotutor_ask. cbn [AskRequest.question].
  rewrite strip_map by (intros c; apply ascii_upper_facts).
  unfold lower.
  rewrite (do_lower_below_128 [] (strip question)) by now apply strip_below_128.
  rewrite do_lower_below_128.
  - rewrite map_map, (map_ext _ _ ascii_lower_upper).
    change (lit "?") with [chr "?"].
    rewrite endswith_map by (intros c; apply ascii_upper_facts).
    destruct (existsb _ _); [|destruct (endswith _ _)]; reflexivity.
  - apply forallb_forall. intros c Hc.
    apply in_map_iff in Hc as (d & <- & Hd).
    apply N.ltb_lt, ascii_upper_facts, N.ltb_lt.
    apply strip_below_128 in H.
    now apply (proj1 (forallb_forall _ _) H).
Qed.

End AsciiQuestion.

End Handlers.

(** * The handlers on concrete requests

    The case tables are instantiated with their ASCII part; all the requests
    below are ASCII. *)

Lemma ascii_ToLowerFull_ascii c :
  ascii_IsCased c = true -> ascii_ToLowerFull c = [ascii_lower c].
Proof. reflexivity. Qed.

Lemma ascii_upper_idem c : ascii_upper (ascii_upper c) = ascii_upper c.
Proof.
  unfold ascii_upper.
  destruct ((0x61 <=? c) && (c <=? 0x7A)) eqn:E; [|now rewrite E].
  apply andb_true_iff in E as [E1 E2]. apply N.leb_le in E1, E2.
  destruct (N.leb_spec 0x61 (c - 32)); [lia|reflexivity].
Qed.

Lemma ascii_ToUpperFull_idem c d :
  In d (ascii_ToUpperFull c) -> ascii_ToUpperFull d = [d].
Proof.
  intros [<-|[]]. unfold ascii_ToUpperFull. now rewrite ascii_upper_idem.
Qed.

Lemma ascii_ToUpperFull_separators c d :
  In d (ascii_ToUpperFull c) -> d = chr " " \/ d = LF -> c = d.
Proof.
  intros [<-|[]]. unfold ascii_upper, chr, LF. simpl N_of_ascii.
  destruct (N.leb_spec 0x61 c), (N.leb_spec c 0x7A); cbn [andb]; lia.
Qed.

Definition scenario_question : str := lit " Apa " ++ lit "RuMus" ++ lit " persegi? ".

Lemma rumus_takes_computational_branch_witness :
  map ascii_lower (lit "RuMus") = lit "rumus" /\
  endswith (strip scenario_question) (lit "?") = true /\
  AskResponse.steps
    (neotutor_ask ascii_ToLowerFull ascii_IsCased ascii_IsCaseIgnorable
       (AskRequest.mk scenario_question (Some (lit "smp"))))
  = computational_steps.
Proof.
  split; [reflexivity|]. split; [vm_compute; reflexivity|].
  apply (rumus_takes_computational_branch
           ascii_ToLowerFull ascii_IsCased ascii_IsCaseIgnorable
           ascii_ToLowerFull_ascii
           (lit " Apa ") (lit "RuMus") (lit " persegi? ") (Some (lit "smp"))).
  reflexivity.
Defined.

Definition scenario_text : str :=
  lit "Apa itu gravitasi? Gravitasi adalah gaya tarik. Ini penting untuk fisika.".

Lemma summary_of_long_text_witness :
  segment scenario_text
  = [lit "Apa itu gravitasi"; lit "Gravitasi adalah gaya tarik";
     lit "Ini penting untuk fisika"] /\
  FlexaResponse.summary
    (flexa_convert ascii_ToUpperFull (FlexaRequest.mk scenario_text))
  = lit "Apa itu gravitasi. Gravitasi adalah gaya tarik...".
Proof.
  split; [vm_compute; reflexivity|].
  apply (summary_of_long_text ascii_ToUpperFull scenario_text
           (lit "Apa itu gravitasi") (lit "Gravitasi adalah gaya tarik")
           (lit "Ini penting untuk fisika") []).
  vm_compute. reflexivity.
Defined.

Lemma summary_of_short_text_witness :
  (length (segment (lit " Halo dunia. Apa kabar? ")) <= 2)%nat /\
  endswith
    (FlexaResponse.summary
       (flexa_convert ascii_ToUpperFull
          (FlexaRequest.mk (lit " Halo dunia. Apa kabar? "))))
    (lit "...") = false.
Proof.
  assert (H : (length (segment (lit " Halo dunia. Apa kabar? ")) <= 2)%nat)
    by (vm_compute; lia).
  split; [exact H|].
  apply (summary_of_short_text ascii_ToUpperFull
           (lit " Halo dunia. Apa kabar? ") H).
Defined.

Definition tabbed_text : str := lit "a" ++ [TAB] ++ lit "b".

Lemma sign_gloss_tokens_witness :
  (length (FlexaResponse.sign_gloss
             (flexa_convert ascii_ToUpperFull
                (FlexaRequest.mk (lit "satu dua tiga empat lima enam tujuh delapan sembilan"))))
   <= 8)%nat.
Proof.
  apply (sign_gloss_tokens ascii_ToUpperFull
           ascii_ToUpperFull_idem ascii_ToUpperFull_separators
           (lit "satu dua tiga empat lima enam tujuh delapan sembilan")).
Defined.

(** C4 as stated fails: a tab is white space, it is neither replaced nor
    split on, so the one token of "a<TAB>b" holds it. *)
Lemma sign_gloss_token_with_tab :
  FlexaResponse.sign_gloss
    (flexa_convert ascii_ToUpperFull (FlexaRequest.mk tabbed_text))
  = [lit "A" ++ [TAB] ++ lit "B"] /\
  In TAB (lit "A" ++ [TAB] ++ lit "B") /\ isspace TAB = true.
Proof.
  split; [vm_compute; reflexivity|].
  split; [right; left; reflexivity|reflexivity].
Qed.

(** C6 as stated fails: the text is stripped before it is returned, so a
    text with a leading blank does not come back character for character. *)
Lemma large_text_drops_outer_space :
  FlexaResponse.large_text
    (flexa_convert ascii_ToUpperFull (FlexaRequest.mk (lit " a")))
  = lit "a" /\
  FlexaResponse.large_text
    (flexa_convert ascii_ToUpperFull (FlexaRequest.mk (lit " a")))
  <> lit " a".
Proof.
  split; [vm_compute; reflexivity|].
  vm_compute. discriminate.
Qed.

(** ** Further runs *)

Definition blanks : str := lit "   ".

Lemma ascii_ToLowerFull_below_128 c :
  c < 128 -> ascii_ToLowerFull c = [ascii_lower c].
Proof. reflexivity. Qed.

Lemma neotutor_ask_ignores_outer_blanks_witness :
  neotutor_ask ascii_ToLowerFull ascii_IsCased ascii_IsCaseIgnorable
    (AskRequest.mk (blanks ++ lit "Apa itu pecahan?" ++ [LF; TAB]) None)
  = neotutor_ask ascii_ToLowerFull ascii_IsCased ascii_IsCaseIgnorable
      (AskRequest.mk (lit "Apa itu pecahan?") None).
Proof.
  apply (neotutor_ask_ignores_outer_blanks
           ascii_ToLowerFull ascii_IsCased ascii_IsCaseIgnorable
           blanks (lit "Apa itu pecahan?") [LF; TAB] None);
    reflexivity.
Defined.

Lemma neotutor_ask_blank_question_witness :
  AskRequest.valid (AskRequest.mk blanks None) = true /\
  AskResponse.answer
    (neotutor_ask ascii_ToLowerFull ascii_IsCased ascii_IsCaseIgnorable
       (AskRequest.mk blanks None))
  = lit "Menjawab: ''. Ini adalah jawaban ringkas yang mudah diikuti.".
Proof.
  split; [reflexivity|].
  apply (neotutor_ask_blank_question
           ascii_ToLowerFull ascii_IsCased ascii_IsCaseIgnorable blanks None).
  reflexivity.
Defined.

Lemma every_keyword_takes_computational_branch_witness :
  AskResponse.steps
    (neotutor_ask ascii_ToLowerFull ascii_IsCased ascii_IsCaseIgnorable
       (AskRequest.mk (lit "Berapa " ++ lit "KeLiLiNg" ++ lit " persegi?") None))
  = computational_steps.
Proof.
  apply (every_keyword_takes_computational_branch
           ascii_ToLowerFull ascii_IsCased ascii_IsCaseIgnorable
           ascii_ToLowerFull_ascii (lit "keliling")
           (lit "Berapa ") (lit "KeLiLiNg") (lit " persegi?") None).
  - right. right. right. left. reflexivity.
  - reflexivity.
Defined.

Lemma neotutor_ask_case_insensitive_witness :
  AskResponse.steps
    (neotutor_ask ascii_ToLowerFull ascii_IsCased ascii_IsCaseIgnorable
       (AskRequest.mk (lit "APA ITU PECAHAN?") None))
  = AskResponse.steps
      (neotutor_ask ascii_ToLowerFull ascii_IsCased ascii_IsCaseIgnorable
         (AskRequest.mk (lit "Apa itu pecahan?") None)).
Proof.
  apply (neotutor_ask_case_insensitive
           ascii_ToLowerFull ascii_IsCased ascii_IsCaseIgnorable
           ascii_ToLowerFull_below_128 (lit "Apa itu pecahan?") None).
  reflexivity.
Defined.

Lemma text_handlers_ignore_outer_blanks_witness :
  flexa_convert ascii_ToUpperFull
    (FlexaRequest.mk (blanks ++ lit "Halo dunia. Apa kabar?" ++ [LF]))
  = flexa_convert ascii_ToUpperFull
      (FlexaRequest.mk (lit "Halo dunia. Apa kabar?")).
Proof.
  apply (text_handlers_ignore_outer_blanks ascii_ToUpperFull
           blanks (lit "Halo dunia. Apa kabar?") [LF]); reflexivity.
Defined.

Lemma text_handlers_blank_text_witness :
  FlexaRequest.valid (FlexaRequest.mk blanks) = true /\
  flexa_convert ascii_ToUpperFull (FlexaRequest.mk blanks)
  = FlexaResponse.mk None [] [] [].
Proof.
  split; [reflexivity|].
  apply (text_handlers_blank_text ascii_ToUpperFull blanks). reflexivity.
Defined.

Lemma summary_alphabet_witness :
  In (chr "a")
    (FlexaResponse.summary
       (flexa_convert ascii_ToUpperFull (FlexaRequest.mk (lit "Wah! Apa?")))) /\
  (chr "a" = chr "." \/ chr "a" = chr " " \/ In (chr "a") (lit "Wah! Apa?")).
Proof.
  assert (H : In (chr "a")
                (FlexaResponse.summary
                   (flexa_convert ascii_ToUpperFull
                      (FlexaRequest.mk (lit "Wah! Apa?")))))
    by (vm_compute; right; left; reflexivity).
  split; [exact H|].
  apply (summary_alphabet ascii_ToUpperFull (lit "Wah! Apa?") (chr "a") H).
Defined.

Lemma sign_gloss_from_text_witness :
  exists a w b,
    lit " halo dunia" = a ++ w ++ b /\ w <> [] /\
    lit "DUNIA" = upper ascii_ToUpperFull w.
Proof.
  apply (sign_gloss_from_text ascii_ToUpperFull (lit " halo dunia") (lit "DUNIA")).
  vm_compute. right. left. reflexivity.
Defined.

Lemma pathly_level_names_the_tier_witness :
  PathlyResponse.level (pathly_plan (PathlyRequest.mk (lit "Pecahan") 7))
  = lit "lanjutan" /\
  PathlyResponse.level (pathly_plan (PathlyRequest.mk (lit "Pecahan") (-1)))
  = lit "dasar".
Proof.
  split.
  - apply (pathly_level_names_the_tier (lit "Pecahan") 7). lia.
  - apply (pathly_level_names_the_tier (lit "Pecahan") (-1)). lia.
Defined.

Lemma forum_query_limit_clamped_witness :
  forum_query_limit 50 = 50%Z /\ forum_query_limit 0 = 1%Z /\
  forum_query_limit (-3) = 1%Z /\ forum_query_limit 1000 = 100%Z.
Proof.
  split; [apply (forum_query_limit_clamped 50); lia|].
  split; [apply (forum_query_limit_clamped 0); lia|].
  split; [apply (forum_query_limit_clamped (-3)); lia|].
  apply (forum_query_limit_clamped 1000); lia.
Defined.
